(** * GCS auth-translating transport (core/storage/gcp/gcp.go)

    A shallow embedding of [WrapHTTPTransport.RoundTrip],
    [NewWrapHTTPTransport] and [NewMinioClient], and the properties the
    specification states about them. *)

From Stdlib Require Import ZArith String Ascii List Lia.
From stdpp Require Import base option list strings gmap fin_maps.

Local Open Scope string_scope.
Local Open Scope Z_scope.

(** ** Go strings

    A Go string is a sequence of bytes; [string] is a list of 8-bit
    characters. *)

Module strings.

(** [strings.HasPrefix(s, prefix)]:
    [len(s) >= len(prefix) && s[:len(prefix)] == prefix]. *)
Fixpoint HasPrefix (s prefix : string) {struct prefix} : bool :=
  match prefix, s with
  | EmptyString, _ => true
  | String _ _, EmptyString => false
  | String p prefix', String c s' =>
      if Ascii.eqb c p then HasPrefix s' prefix' else false
  end.

(** [s[n:]] for [n <= len(s)]. *)
Fixpoint skip (n : nat) (s : string) : string :=
  match n, s with
  | O, _ => s
  | S n', String _ s' => skip n' s'
  | S _, EmptyString => EmptyString
  end.

(** [strings.Replace(s, old, new, 1)]: the first instance of [old] in [s]
    is replaced by [new]; [s] is returned as it is when [old] does not
    occur.  An empty [old] matches at the beginning of the string. *)
Fixpoint Replace1 (s old new : string) : string :=
  if HasPrefix s old then new +:+ skip (String.length old) s
  else match s with
       | EmptyString => EmptyString
       | String c s' => String c (Replace1 s' old new)
       end.

(** [strings.Contains(s, substr)]: [substr] starts at some index of [s]. *)
Fixpoint Contains (s substr : string) : bool :=
  if HasPrefix s substr then true
  else match s with
       | EmptyString => false
       | String _ s' => Contains s' substr
       end.

End strings.

(** ** Constants of the package *)

Definition _xAmzPrefix : string := "X-Amz-".
Definition _xGoogPrefix : string := "X-Goog-".
Definition GcsDefaultAddress : string := "storage.googleapis.com".

(** ** HTTP requests

    [http.Header] is [map[string][]string].  The rest of a request is
    carried along; [RoundTrip] does not read or write it. *)

Record Request := mkRequest {
  Method : string;
  URL : string;
  Header : gmap string (list string);
  Body : string
}.

Definition with_Header (req : Request) (h : gmap string (list string)) : Request :=
  {| Method := Method req; URL := URL req; Header := h; Body := Body req |}.

(** ** Header translation: the loop of [RoundTrip], lines 50-55

    One iteration of the body at key [k].  Go's [range] yields a key only
    while its entry is in the map, with the value the map holds for it. *)

Definition translateStep (h : gmap string (list string)) (k : string)
  : gmap string (list string) :=
  match h !! k with
  | Some v =>
      if strings.HasPrefix k _xAmzPrefix
      then delete k (<[strings.Replace1 k _xAmzPrefix _xGoogPrefix := v]> h)
      else h
  | None => h
  end.

(** The loop, for the sequence [order] of keys the runtime tries in turn.
    The order of a Go map iteration is not specified, and an entry created
    during the iteration may be produced or skipped: [order] is any list
    that holds every key of the map at entry (every entry that is not
    deleted is produced), in any order, with or without the created keys. *)

Definition translateHeaders (order : list string) (h : gmap string (list string))
  : gmap string (list string) :=
  foldl translateStep h order.

Definition covers (order : list string) (h : gmap string (list string)) : Prop :=
  dom h ⊆ (list_to_set order : gset string).

#[global] Instance covers_dec order h : Decision (covers order h).
Proof. unfold covers. apply _. Defined.

(** ** Errors (github.com/pkg/errors)

    An error value is a leaf message or a message wrapped around a cause.
    [errors.Wrap] is only reached here with a non-nil error. *)

Inductive error :=
| errorString (s : string)
| withMessage (cause : error) (msg : string).

Module errors.

Definition Wrap (err : error) (message : string) : error :=
  withMessage err message.

Fixpoint Error (e : error) : string :=
  match e with
  | errorString s => s
  | withMessage cause msg => msg +:+ ": " +:+ Error cause
  end.

Fixpoint Cause (e : error) : error :=
  match e with
  | errorString s => errorString s
  | withMessage cause _ => Cause cause
  end.

End errors.

(** ** Access tokens (golang.org/x/oauth2)

    Times are nanoseconds on the clock [Valid] reads. *)

Record Token := mkToken {
  AccessToken : string;
  Expiry : Z
}.

Definition Second : Z := 1000000000.

(** The safety margin of [Valid]: 10 seconds. *)
Definition expiryDelta : Z := 10 * Second.

(** Modelled from the spec: [oauth2.Token.Valid] belongs to
    golang.org/x/oauth2, which is not among the sources.  Following the
    data model of the specification and the comment at gcp.go:56, a token is
    valid when the current time is more than the 10 second margin before
    its expiry; an absent (nil) token is not valid. *)
Definition Valid (t : option Token) (now : Z) : bool :=
  match t with
  | None => false
  | Some tok => now + expiryDelta <? Expiry tok
  end.

(** ** The two interfaces the transport consumes

    [oauth2.TokenSource] has one method, [Token()], which returns a token
    or an error (never a nil token with a nil error); the interface
    [transport] of gcp.go has one method, [RoundTrip].  Both are stateful: a
    call returns its result and the next state of the callee. *)

Record Response := mkResponse {
  StatusCode : Z;
  RespBody : string
}.

Class TokenSource (S : Type) := TokenSource_Token : S → (error + Token) * S.

Class transport (B : Type) :=
  transport_RoundTrip : B → Request → (option Response * option error) * B.

(** ** WrapHTTPTransport *)

Record WrapHTTPTransport (S B : Type) := mkWrap {
  tokenSrc : S;
  backend : B;
  currentToken : option Token
}.
Arguments mkWrap {S B}.
Arguments tokenSrc {S B}.
Arguments backend {S B}.
Arguments currentToken {S B}.

(** What a call of [RoundTrip] does to its collaborators, in order. *)
Inductive Event :=
| EvLoad (cur : option Token)
| EvToken (r : error + Token)
| EvStore (tok : Token)
| EvSend (req : Request).

(** The outcome of a Go computation: a value, or a run-time panic. *)
Inductive Result (A : Type) :=
| Done (a : A)
| Panic (msg : string).
Arguments Done {A}.
Arguments Panic {A}.

Section Transport.

Context {S B : Type} `{TokenSource S} `{transport B}.

(** The state a call of [RoundTrip] works on: the receiver [t], the
    request behind the pointer [req] (mutated in place), the clock, and
    the log of the calls made so far. *)
Record State := mkState {
  self : WrapHTTPTransport S B;
  request : Request;
  clock : Z;
  log : list Event
}.

Definition M (A : Type) : Type := State → Result A * State.

#[global] Instance M_ret : MRet M := λ A a s, (Done a, s).

#[global] Instance M_bind : MBind M :=
  λ A C k m s, match m s with
               | (Done a, s') => k a s'
               | (Panic msg, s') => (Panic msg, s')
               end.

Definition ret {A} (a : A) : M A := mret a.

Definition emit (e : Event) : M unit :=
  λ s, (Done tt, {| self := self s; request := request s;
                    clock := clock s; log := log s ++ [e] |}).

Definition setHeader (h : gmap string (list string)) : M unit :=
  λ s, (Done tt, {| self := self s; request := with_Header (request s) h;
                    clock := clock s; log := log s |}).

Definition setSelf (t : WrapHTTPTransport S B) : M unit :=
  λ s, (Done tt, {| self := t; request := request s;
                    clock := clock s; log := log s |}).

(** [for k, v := range req.Header { ... }] *)
Definition rangeHeader (order : list string) : M unit :=
  λ s, setHeader (translateHeaders order (Header (request s))) s.

(** [t.currentToken.Load()] *)
Definition currentToken_Load : M (option Token) :=
  λ s, (cur ← ret (currentToken (self s)) ; emit (EvLoad cur) ;; ret cur) s.

(** [t.currentToken.Store(tok)] *)
Definition currentToken_Store (tok : Token) : M unit :=
  λ s, (setSelf {| tokenSrc := tokenSrc (self s); backend := backend (self s);
                   currentToken := Some tok |} ;;
        emit (EvStore tok)) s.

(** [tok.Valid()], which reads the clock. *)
Definition Token_Valid (tok : option Token) : M bool :=
  λ s, (Done (Valid tok (clock s)), s).

(** [tok.AccessToken] through the pointer [tok]. *)
Definition Token_AccessToken (tok : option Token) : M string :=
  match tok with
  | Some tk => ret (AccessToken tk)
  | None => λ s, (Panic "invalid memory address or nil pointer dereference", s)
  end.

(** [req.Header.Set(key, value)]: the entry of the canonical form of [key]
    becomes the one-element list [value].  The only key set here,
    ["Authorization"], is its own canonical form. *)
Definition Header_Set (key value : string) : M unit :=
  λ s, setHeader (<[key := [value]]> (Header (request s))) s.

(** [t.tokenSrc.Token()] *)
Definition tokenSrc_Token : M (error + Token) :=
  λ s, let '(r, src) := TokenSource_Token (tokenSrc (self s)) in
       (setSelf {| tokenSrc := src; backend := backend (self s);
                   currentToken := currentToken (self s) |} ;;
        emit (EvToken r) ;; ret r) s.

(** [t.backend.RoundTrip(req)] *)
Definition backend_RoundTrip : M (option Response * option error) :=
  λ s, let '(r, b) := transport_RoundTrip (backend (self s)) (request s) in
       (emit (EvSend (request s)) ;;
        setSelf {| tokenSrc := tokenSrc (self s); backend := b;
                   currentToken := currentToken (self s) |} ;;
        ret r) s.

(** [func (t *WrapHTTPTransport) RoundTrip(req *http.Request)].  The
    branch on the token yields [Some] of the values of an early [return],
    or [None] to fall through to the delegation of line 70. *)
Definition RoundTrip (order : list string) : M (option Response * option error) :=
  rangeHeader order ;;
  currentToken ← currentToken_Load ;
  valid ← Token_Valid currentToken ;
  early ← (if valid : bool then
             access ← Token_AccessToken currentToken ;
             Header_Set "Authorization" ("Bearer " +:+ access) ;;
             ret None
           else
             r ← tokenSrc_Token ;
             match r with
             | inl err =>
                 ret (Some (None, Some (errors.Wrap err "failed to acquire token")))
             | inr newToken =>
                 Header_Set "Authorization" ("Bearer " +:+ AccessToken newToken) ;;
                 currentToken_Store newToken ;;
                 ret None
             end) ;
  match early with
  | Some res => ret res
  | None => backend_RoundTrip
  end.

(** A call of [t.RoundTrip(req)] at time [now]. *)
Definition call (order : list string) (t : WrapHTTPTransport S B)
    (req : Request) (now : Z) : Result (option Response * option error) * State :=
  RoundTrip order {| self := t; request := req; clock := now; log := [] |}.

(** The token a call uses: the cached one when it is valid, the one
    [Token()] returns otherwise. *)
Definition chosen (t : WrapHTTPTransport S B) (now : Z) (tok : Token) : Prop :=
  if Valid (currentToken t) now
  then currentToken t = Some tok
  else (TokenSource_Token (tokenSrc t)).1 = inr tok.

(** ** Construction

    [raw.DevstorageFullControlScope] is a constant of the storage API
    package; [google.DefaultTokenSource(ctx, scope)] and
    [minio.DefaultTransport(secure)] are library functions. *)

Variable DevstorageFullControlScope : string.
Variable google_DefaultTokenSource : string → error + S.
Variable minio_DefaultTransport : bool → error + B.

(** [func NewWrapHTTPTransport(secure bool)]: a new transport or an error *)
Definition NewWrapHTTPTransport (secure : bool) : error + WrapHTTPTransport S B :=
  match google_DefaultTokenSource DevstorageFullControlScope with
  | inl err => inl (errors.Wrap err "failed to create default token source")
  | inr tokenSrc =>
      match minio_DefaultTransport secure with
      | inl err => inl (errors.Wrap err "failed to create default transport")
      | inr backend =>
          inr {| tokenSrc := tokenSrc; backend := backend; currentToken := None |}
      end
  end.

End Transport.

(** ** The client factory

    [minio.Options] and [credentials.Credentials] belong to minio-go; they
    are modelled by the fields the factory reads or writes and one more
    that it must carry along. *)

Inductive SignatureType :=
| SignatureDefault
| SignatureV4
| SignatureV2
| SignatureAnonymous.

Record Credentials := mkCredentials {
  AccessKeyID : string;
  SecretAccessKey : string;
  SessionToken : string;
  SignerType : SignatureType
}.

Module credentials.

(** [credentials.NewStaticV2(id, secret, token)]: static credentials
    signed with signature version 2. *)
Definition NewStaticV2 (id secret token : string) : Credentials :=
  {| AccessKeyID := id; SecretAccessKey := secret; SessionToken := token;
     SignerType := SignatureV2 |}.

End credentials.

(** The value of [opts.Transport]: a round tripper of the caller, or the
    transport of this package. *)
Inductive RoundTripper (S B : Type) :=
| CallerTransport (b : B)
| GcpTransport (t : WrapHTTPTransport S B).
Arguments CallerTransport {S B}.
Arguments GcpTransport {S B}.

Record Options (S B : Type) := mkOptions {
  Creds : option Credentials;
  Secure : bool;
  Transport : option (RoundTripper S B);
  Region : string
}.
Arguments mkOptions {S B}.
Arguments Creds {S B}.
Arguments Secure {S B}.
Arguments Transport {S B}.
Arguments Region {S B}.

Section Factory.

Context {S B Client : Type}.

Variable DevstorageFullControlScope : string.
Variable google_DefaultTokenSource : string → error + S.
Variable minio_DefaultTransport : bool → error + B.
(** [minio.New(endpoint, opts)] *)
Variable minio_New : string → Options S B → error + Client.

(** [&minio.Options{}] *)
Definition zeroOptions : Options S B :=
  {| Creds := None; Secure := false; Transport := None; Region := "" |}.

(** [opts.Secure = secure] *)
Definition with_Secure (opts : Options S B) (secure : bool) : Options S B :=
  {| Creds := Creds opts; Secure := secure;
     Transport := Transport opts; Region := Region opts |}.

(** Lines 77-88 of [NewMinioClient]: the defaults for a nil [opts] and an
    empty [address], and the removal of the port of a GCS address. *)
Definition normalize (address : string) (opts : option (Options S B))
  : string * Options S B :=
  let opts := match opts with
              | None => zeroOptions
              | Some o => o
              end in
  let '(address, opts) :=
    if String.eqb address ""
    then (GcsDefaultAddress, with_Secure opts true)
    else (address, opts) in
  let address :=
    if strings.Contains address GcsDefaultAddress
    then GcsDefaultAddress
    else address in
  (address, opts).

(** [func NewMinioClient(address string, opts *minio.Options)], whose
    lines 90-101 dispatch on [opts.Creds]. *)
Definition NewMinioClient (address : string) (opts : option (Options S B))
  : error + Client :=
  let '(address, opts) := normalize address opts in
  match Creds opts with
  | Some _ => minio_New address opts
  | None =>
      match NewWrapHTTPTransport DevstorageFullControlScope
              google_DefaultTokenSource minio_DefaultTransport (Secure opts) with
      | inl err => inl (errors.Wrap err "failed to create default transport")
      | inr transport =>
          minio_New address
            {| Creds := Some (credentials.NewStaticV2 "" "" "");
               Secure := Secure opts;
               Transport := Some (GcpTransport transport);
               Region := Region opts |}
      end
  end.

End Factory.

(** ** Observers on the log of a call *)

Definition isToken (e : Event) : bool :=
  match e with
  | EvToken _ => true
  | _ => false
  end.

(** How often [Token()] was invoked. *)
Definition tokenCalls (l : list Event) : nat := length (filter isToken l).

(** The requests handed to the backend, in order. *)
Definition sent (l : list Event) : list Request :=
  omap (λ e, match e with
             | EvSend r => Some r
             | _ => None
             end) l.

(** The tokens stored into the cache, in order. *)
Definition stored (l : list Event) : list Token :=
  omap (λ e, match e with
             | EvStore tok => Some tok
             | _ => None
             end) l.

(** The name whose translation is [k], if [k] starts with [_xGoogPrefix]. *)
Definition amzName (k : string) : string :=
  _xAmzPrefix +:+ strings.skip (String.length _xGoogPrefix) k.

(** ** Stubs: a scripted token source and a recording backend *)

Record scripted := mkScripted {
  script : list (error + Token);
  served : nat
}.

#[global] Instance scripted_TokenSource : TokenSource scripted :=
  λ s, match script s with
       | [] => (inl (errorString "no credentials"),
                {| script := []; served := Datatypes.S (served s) |})
       | r :: rest => (r, {| script := rest; served := Datatypes.S (served s) |})
       end.

Record recorder := mkRecorder {
  received : list Request
}.

#[global] Instance recorder_transport : transport recorder :=
  λ b req, ((Some {| StatusCode := 200; RespBody := "" |}, None),
            {| received := received b ++ [req] |}).

(** A [minio.New] that returns the arguments it was called with. *)
Definition recordNew (address : string) (opts : Options scripted recorder)
  : error + (string * Options scripted recorder) :=
  inr (address, opts).

Definition header_of (l : list (string * list string)) : gmap string (list string) :=
  list_to_map l.

Definition sampleRequest : Request :=
  {| Method := "PUT"; URL := "/bucket/object";
     Header := header_of [("X-Amz-Date", ["20240101T000000Z"]);
                          ("Host", ["storage.googleapis.com"]);
                          ("Authorization", ["AWS key:signature"])];
     Body := "payload" |}.

Definition sampleOrder : list string := ["Host"; "Authorization"; "X-Amz-Date"].

Definition freshToken : Token :=
  {| AccessToken := "ya29.fresh"; Expiry := 3600 * Second |}.
Definition cachedToken : Token :=
  {| AccessToken := "ya29.cached"; Expiry := 100 * Second |}.
Definition staleToken : Token := {| AccessToken := "ya29.stale"; Expiry := 5 * Second |}.

Definition clashRequest : Request :=
  {| Method := "GET"; URL := "/bucket";
     Header := header_of [("X-Amz-Date", ["new"]); ("X-Goog-Date", ["old"])];
     Body := "" |}.

Definition clashOrder : list string := ["X-Goog-Date"; "X-Amz-Date"].

Definition sampleScope : string :=
  "https://www.googleapis.com/auth/devstorage.full_control".

Definition sampleError : error := errorString "metadata server unreachable".

Definition sampleTransport (cur : option Token) (answers : list (error + Token))
  : WrapHTTPTransport scripted recorder :=
  {| tokenSrc := {| script := answers; served := 0 |};
     backend := {| received := [] |};
     currentToken := cur |}.

(** The header map with the bearer token of [tok] as its authorization. *)
Definition authorized (h : gmap string (list string)) (tok : Token)
  : gmap string (list string) :=
  <["Authorization" := ["Bearer " +:+ AccessToken tok]]> h.

Definition laterCalls : list (list string * Request * Z) :=
  [(["X-Goog-Date"; "Host"],
    {| Method := "GET"; URL := "/bucket/object";
       Header := list_to_map [("Host", ["storage.googleapis.com"]);
                              ("X-Goog-Date", ["20240101T000000Z"])];
       Body := "" |},
    50 * Second)].

(** ** Requests sent one after another

    A client sends its requests through one transport: each call starts on
    the receiver as the call before left it.  [serve] returns the receiver
    after the last call and the log of all the calls. *)

Section Serving.

Context {S B : Type} `{TokenSource S} `{transport B}.

Fixpoint serve (t : WrapHTTPTransport S B)
    (calls : list (list string * Request * Z))
  : WrapHTTPTransport S B * list Event :=
  match calls with
  | [] => (t, [])
  | (order, req, now) :: rest =>
      let out := call order t req now in
      let '(t', l) := serve (self out.2) rest in
      (t', (log out.2 ++ l)%list)
  end.

(** Every call of [calls] happens more than the margin before [expiry]. *)
Definition allBefore (expiry : Z) (calls : list (list string * Request * Z)) : bool :=
  forallb (λ c, c.2 + expiryDelta <? expiry) calls.

End Serving.

(** No header of [h] has a name with the S3 prefix. *)
Definition noAmz (h : gmap string (list string)) : Prop :=
  map_Forall (λ k _, strings.HasPrefix k _xAmzPrefix = false) h.

#[global] Instance noAmz_dec h : Decision (noAmz h).
Proof. unfold noAmz. apply _. Defined.

Definition sampleOrder2 : list string :=
  ["X-Amz-Date"; "X-Goog-Date"; "Authorization"; "Host"].

Definition plainOrder : list string := ["X-Goog-Date"; "Host"].

Definition keyedOptions : Options scripted recorder :=
  {| Creds := Some (credentials.NewStaticV2 "id" "secret" "");
     Secure := false; Transport := None; Region := "eu" |}.

Definition plainRequest : Request :=
  {| Method := "GET"; URL := "/bucket/object";
     Header := header_of [("Host", ["storage.googleapis.com"]);
                          ("X-Goog-Date", ["20240101T000000Z"])];
     Body := "" |}.

(** * Properties *)

(** ** Strings *)

Lemma append_cons c (p s : string) : String c p +:+ s = String c (p +:+ s).
Proof. reflexivity. Qed.

Lemma HasPrefix_split s p :
  strings.HasPrefix s p = true → s = p +:+ strings.skip (String.length p) s.
Proof.
  revert s. induction p as [|c p IH]; intros s Hp; [done|].
  destruct s as [|d s]; [discriminate|]. simpl in *.
  destruct (Ascii.eqb d c) eqn:E; [|discriminate].
  apply Ascii.eqb_eq in E as ->. rewrite append_cons. f_equal. by apply IH.
Qed.

Lemma HasPrefix_app p s : strings.HasPrefix (p +:+ s) p = true.
Proof.
  induction p as [|c p IH]; [reflexivity|].
  rewrite append_cons. simpl. by rewrite Ascii.eqb_refl.
Qed.

Lemma skip_app p s : strings.skip (String.length p) (p +:+ s) = s.
Proof. induction p as [|c p IH]; [reflexivity|]. exact IH. Qed.

Lemma Replace1_prefix s old new :
  strings.HasPrefix s old = true →
  strings.Replace1 s old new = new +:+ strings.skip (String.length old) s.
Proof. intros Hp. destruct s; simpl; by rewrite Hp. Qed.

(** The translated name: only the prefix differs. *)
Lemma translated_name k :
  strings.HasPrefix k _xAmzPrefix = true →
  ∃ rest, k = _xAmzPrefix +:+ rest
          ∧ strings.Replace1 k _xAmzPrefix _xGoogPrefix = _xGoogPrefix +:+ rest.
Proof.
  intros Hp. exists (strings.skip (String.length _xAmzPrefix) k). split.
  - by apply HasPrefix_split.
  - by apply Replace1_prefix.
Qed.

Lemma translated_not_amz k :
  strings.HasPrefix k _xAmzPrefix = true →
  strings.HasPrefix (strings.Replace1 k _xAmzPrefix _xGoogPrefix) _xAmzPrefix = false.
Proof. intros Hp. by rewrite Replace1_prefix. Qed.

Lemma translated_goog k :
  strings.HasPrefix k _xAmzPrefix = true →
  strings.HasPrefix (strings.Replace1 k _xAmzPrefix _xGoogPrefix) _xGoogPrefix = true.
Proof. intros Hp. by rewrite Replace1_prefix. Qed.

Lemma translated_source k :
  strings.HasPrefix k _xAmzPrefix = true →
  amzName (strings.Replace1 k _xAmzPrefix _xGoogPrefix) = k.
Proof.
  intros Hp. destruct (translated_name k Hp) as (rest & Hk & ->).
  unfold amzName. by rewrite skip_app.
Qed.

Lemma translated_inj k1 k2 :
  strings.HasPrefix k1 _xAmzPrefix = true →
  strings.HasPrefix k2 _xAmzPrefix = true →
  strings.Replace1 k1 _xAmzPrefix _xGoogPrefix
  = strings.Replace1 k2 _xAmzPrefix _xGoogPrefix →
  k1 = k2.
Proof.
  intros H1 H2 E.
  rewrite <- (translated_source k1 H1), <- (translated_source k2 H2).
  by rewrite E.
Qed.

Lemma amzName_goog k :
  strings.HasPrefix k _xGoogPrefix = true →
  strings.HasPrefix (amzName k) _xAmzPrefix = true
  ∧ strings.Replace1 (amzName k) _xAmzPrefix _xGoogPrefix = k.
Proof.
  intros Hg. split; [apply HasPrefix_app|].
  rewrite Replace1_prefix by apply HasPrefix_app.
  unfold amzName. rewrite skip_app. symmetry. by apply HasPrefix_split.
Qed.

(** A name is the translation of [k0] exactly when [k0] is its [amzName]. *)
Lemma translated_iff k0 k :
  strings.HasPrefix k0 _xAmzPrefix = true
  ∧ strings.Replace1 k0 _xAmzPrefix _xGoogPrefix = k
  ↔ strings.HasPrefix k _xGoogPrefix = true ∧ k0 = amzName k.
Proof.
  split.
  - intros [Hp <-]. split; [by apply translated_goog|].
    symmetry. by apply translated_source.
  - intros [Hg ->]. by apply amzName_goog.
Qed.

Example Replace1_date :
  strings.Replace1 "X-Amz-Date" _xAmzPrefix _xGoogPrefix = "X-Goog-Date".
Proof. reflexivity. Qed.

Example Replace1_first_only :
  strings.Replace1 "X-Amz-X-Amz-Meta" _xAmzPrefix _xGoogPrefix
  = "X-Goog-X-Amz-Meta".
Proof. reflexivity. Qed.

Example Replace1_inner :
  strings.Replace1 "Foo-X-Amz-Date" _xAmzPrefix _xGoogPrefix = "Foo-X-Goog-Date".
Proof. reflexivity. Qed.

Example HasPrefix_case : strings.HasPrefix "x-amz-date" _xAmzPrefix = false.
Proof. reflexivity. Qed.

Example Contains_port :
  strings.Contains "storage.googleapis.com:443" GcsDefaultAddress = true.
Proof. reflexivity. Qed.

Example Contains_other :
  strings.Contains "minio.example.org:9000" GcsDefaultAddress = false.
Proof. reflexivity. Qed.

(** ** Header translation *)

Section Translation.

Implicit Types (h : gmap string (list string)) (k : string).

Lemma decide_elem_cons {A} (k0 k : string) (order : list string) (a b : A) :
  k0 ≠ k →
  (if decide (k ∈ k0 :: order) then a else b)
  = (if decide (k ∈ order) then a else b).
Proof.
  intros Hne. destruct (decide (k ∈ order)) as [Hin|Hnin].
  - rewrite decide_True; [done|]. apply elem_of_cons. by right.
  - rewrite decide_False; [done|]. apply not_elem_of_cons. split; congruence.
Qed.

Lemma covers_elem order h k : covers order h → is_Some (h !! k) → k ∈ order.
Proof.
  unfold covers. intros Hc Hk. apply elem_of_dom in Hk.
  apply Hc in Hk. by apply elem_of_list_to_set in Hk.
Qed.

(** One iteration, seen from a name with the S3 prefix. *)
Lemma step_amz h k0 k :
  strings.HasPrefix k _xAmzPrefix = true →
  translateStep h k0 !! k = if decide (k0 = k) then None else h !! k.
Proof.
  intros Hp. unfold translateStep.
  destruct (h !! k0) as [v|] eqn:E0.
  - destruct (strings.HasPrefix k0 _xAmzPrefix) eqn:P0.
    + case_decide as Hk.
      * subst k0. apply lookup_delete_eq.
      * rewrite lookup_delete_ne by done.
        apply lookup_insert_ne. intros E.
        pose proof (translated_not_amz k0 P0) as Hn. congruence.
    + case_decide as Hk; [congruence | done].
  - case_decide as Hk; [congruence | done].
Qed.

(** One iteration, seen from any other name. *)
Lemma step_other h k0 k :
  strings.HasPrefix k _xAmzPrefix = false →
  translateStep h k0 !! k
  = match h !! k0 with
    | Some v =>
        if decide (strings.HasPrefix k _xGoogPrefix = true ∧ k0 = amzName k)
        then Some v else h !! k
    | None => h !! k
    end.
Proof.
  intros Hp. unfold translateStep.
  destruct (h !! k0) as [v|] eqn:E0; [|done].
  destruct (strings.HasPrefix k0 _xAmzPrefix) eqn:P0.
  - assert (k0 ≠ k) as Hne by congruence.
    rewrite lookup_delete_ne by done.
    case_decide as Hd.
    + apply translated_iff in Hd as [_ <-]. apply lookup_insert_eq.
    + apply lookup_insert_ne. intros E. apply Hd, translated_iff. done.
  - case_decide as Hd; [|done].
    destruct Hd as [Hg ->]. apply amzName_goog in Hg as [Hg _]. congruence.
Qed.

(** After the loop a name with the S3 prefix is gone once it was visited. *)
Lemma translate_amz order h k :
  strings.HasPrefix k _xAmzPrefix = true →
  translateHeaders order h !! k = if decide (k ∈ order) then None else h !! k.
Proof.
  intros Hp. unfold translateHeaders. revert h.
  induction order as [|k0 order IH]; intros h; cbn [foldl].
  - case_decide as Hin; [by apply elem_of_nil in Hin | done].
  - rewrite IH, step_amz by done.
    destruct (decide (k ∈ k0 :: order)) as [Hin|Hnin].
    + apply elem_of_cons in Hin as [Heq|Hin].
      * destruct (decide (k ∈ order)); [done|]. by rewrite decide_True.
      * by rewrite decide_True.
    + apply not_elem_of_cons in Hnin as [Hne Hnin].
      rewrite decide_False by done. by rewrite decide_False.
Qed.

(** After the loop any other name holds the value list of its S3 source,
    if the request had one, and its own otherwise. *)
Lemma translate_other order h k :
  strings.HasPrefix k _xAmzPrefix = false →
  translateHeaders order h !! k
  = if strings.HasPrefix k _xGoogPrefix
    then match h !! amzName k with
         | Some v => if decide (amzName k ∈ order) then Some v else h !! k
         | None => h !! k
         end
    else h !! k.
Proof.
  intros Hp. unfold translateHeaders. revert h.
  induction order as [|k0 order IH]; intros h; cbn [foldl].
  - destruct (strings.HasPrefix k _xGoogPrefix); [|done].
    destruct (h !! amzName k); [|done].
    case_decide as Hin; [by apply elem_of_nil in Hin | done].
  - rewrite IH. rewrite (step_other h k0 k Hp).
    destruct (strings.HasPrefix k _xGoogPrefix) eqn:Hg.
    + rewrite (step_amz h k0 (amzName k)) by apply HasPrefix_app.
      destruct (decide (k0 = amzName k)) as [->|Hne].
      * destruct (h !! amzName k) as [v|] eqn:Ea; [|done].
        rewrite decide_True by done.
        rewrite decide_True by (apply elem_of_cons; by left). done.
      * destruct (h !! k0) as [v0|] eqn:E0.
        -- rewrite decide_False by (intros [_ ?]; done).
           destruct (h !! amzName k); [|done].
           by rewrite decide_elem_cons by done.
        -- destruct (h !! amzName k); [|done].
           by rewrite decide_elem_cons by done.
    + destruct (h !! k0); [|done].
      rewrite decide_False by (intros [? _]; done). done.
Qed.

(** The map the loop produces, name by name, for any order that covers the
    request. *)
Lemma translate_lookup order h k :
  covers order h →
  translateHeaders order h !! k
  = if strings.HasPrefix k _xAmzPrefix then None
    else if strings.HasPrefix k _xGoogPrefix
         then match h !! amzName k with
              | Some v => Some v
              | None => h !! k
              end
         else h !! k.
Proof.
  intros Hc. destruct (strings.HasPrefix k _xAmzPrefix) eqn:Hp.
  - rewrite translate_amz by done.
    destruct (decide (k ∈ order)) as [|Hnin]; [done|].
    destruct (h !! k) eqn:E; [|done].
    destruct Hnin. by eapply covers_elem.
  - rewrite translate_other by done.
    destruct (strings.HasPrefix k _xGoogPrefix); [|done].
    destruct (h !! amzName k) eqn:E; [|done].
    rewrite decide_True; [done|]. by eapply covers_elem.
Qed.

(** The order of the iteration does not matter. *)
Lemma translate_order_irrelevant order1 order2 h :
  covers order1 h → covers order2 h →
  translateHeaders order1 h = translateHeaders order2 h.
Proof.
  intros H1 H2. apply map_eq. intros k. by rewrite !translate_lookup.
Qed.

End Translation.

Example translate_sample :
  map_to_list (translateHeaders sampleOrder (Header sampleRequest))
  = [("Authorization", ["AWS key:signature"]);
     ("X-Goog-Date", ["20240101T000000Z"]);
     ("Host", ["storage.googleapis.com"])].
Proof. vm_compute. reflexivity. Qed.

(** ** The three paths of [RoundTrip] *)

Section Paths.

Context {S B : Type} `{TokenSource S} `{transport B}.
Implicit Types (t : WrapHTTPTransport S B) (req : Request) (tok : Token).

Ltac run :=
  cbv [call RoundTrip rangeHeader currentToken_Load Token_Valid
       Token_AccessToken Header_Set tokenSrc_Token currentToken_Store
       backend_RoundTrip setHeader setSelf emit ret mbind mret M_bind M_ret
       self request clock log tokenSrc backend currentToken
       Method URL Header Body with_Header app fst snd].

(** The cached token is valid: lines 59-60, then line 70. *)
Lemma call_cached order t req now tok :
  currentToken t = Some tok →
  Valid (Some tok) now = true →
  call order t req now
  = let req' := with_Header req
                  (authorized (translateHeaders order (Header req)) tok) in
    (Done (transport_RoundTrip (backend t) req').1,
     {| self := {| tokenSrc := tokenSrc t;
                   backend := (transport_RoundTrip (backend t) req').2;
                   currentToken := Some tok |};
        request := req';
        clock := now;
        log := [EvLoad (Some tok); EvSend req'] |}).
Proof.
  destruct t as [src b cur], req as [m u h bd]. intros Hcur Hv.
  simpl in Hcur. subst cur. run. rewrite Hv.
  by destruct (transport_RoundTrip _ _) as [r b'].
Qed.

(** No valid token and [Token()] succeeds: lines 62-67, then line 70. *)
Lemma call_refreshed order t req now tok src :
  Valid (currentToken t) now = false →
  TokenSource_Token (tokenSrc t) = (inr tok, src) →
  call order t req now
  = let req' := with_Header req
                  (authorized (translateHeaders order (Header req)) tok) in
    (Done (transport_RoundTrip (backend t) req').1,
     {| self := {| tokenSrc := src;
                   backend := (transport_RoundTrip (backend t) req').2;
                   currentToken := Some tok |};
        request := req';
        clock := now;
        log := [EvLoad (currentToken t); EvToken (inr tok); EvStore tok;
                EvSend req'] |}).
Proof.
  destruct t as [src0 b cur], req as [m u h bd]. intros Hv Htok.
  simpl in Hv, Htok. run. rewrite Hv, Htok.
  by destruct (transport_RoundTrip _ _) as [r b'].
Qed.

(** No valid token and [Token()] fails: lines 62-64. *)
Lemma call_failed order t req now err src :
  Valid (currentToken t) now = false →
  TokenSource_Token (tokenSrc t) = (inl err, src) →
  call order t req now
  = (Done (None, Some (errors.Wrap err "failed to acquire token")),
     {| self := {| tokenSrc := src; backend := backend t;
                   currentToken := currentToken t |};
        request := with_Header req (translateHeaders order (Header req));
        clock := now;
        log := [EvLoad (currentToken t); EvToken (inl err)] |}).
Proof.
  destruct t as [src0 b cur], req as [m u h bd]. intros Hv Htok.
  simpl in Hv, Htok. run. by rewrite Hv, Htok.
Qed.

End Paths.

(** ** The transport *)

Section Claims.

Context {S B : Type} `{TokenSource S} `{transport B}.
Implicit Types (t : WrapHTTPTransport S B) (req : Request) (tok : Token).

Ltac by_path order t req now :=
  let Hv := fresh "Hv" in
  let Hcur := fresh "Hcur" in
  let Htok := fresh "Htok" in
  destruct (Valid (currentToken t) now) eqn:Hv;
  [ destruct (currentToken t) as [?tok|] eqn:Hcur;
    [ rewrite (call_cached order t req now _ Hcur Hv)
    | discriminate Hv ]
  | destruct (TokenSource_Token (tokenSrc t)) as [[?err|?tok] ?src] eqn:Htok;
    [ rewrite (call_failed order t req now _ _ Hv Htok)
    | rewrite (call_refreshed order t req now _ _ Hv Htok) ] ].

(** [RoundTrip] returns: no path of it panics. *)
Lemma call_total order t req now : ∃ r, (call order t req now).1 = Done r.
Proof. by_path order t req now; simpl; eauto. Qed.

(** Apart from the authorization, the request leaves [RoundTrip] with the
    headers the loop produced. *)
Lemma call_header order t req now k :
  k ≠ "Authorization" →
  Header (request (call order t req now).2) !! k
  = translateHeaders order (Header req) !! k.
Proof.
  intros Hk. by_path order t req now; simpl; unfold authorized;
    by rewrite ?lookup_insert_ne.
Qed.

Lemma authorized_lookup (h : gmap string (list string)) tok :
  authorized h tok !! "Authorization" = Some ["Bearer " +:+ AccessToken tok].
Proof. apply lookup_insert_eq. Qed.

Lemma Valid_margin (cur : option Token) now :
  Valid cur now = true ↔ ∃ tok, cur = Some tok ∧ now + expiryDelta < Expiry tok.
Proof.
  destruct cur as [tok|]; simpl.
  - rewrite Z.ltb_lt. split; [eauto|]. by intros (? & [= <-] & ?).
  - split; [done|]. by intros (? & ? & ?).
Qed.

(** C1: after the header translation of [RoundTrip] no header whose name
    starts with ["X-Amz-"] is left, on the map the loop produces and on the
    request as [RoundTrip] leaves it; every such header of the original
    request, [X-Amz-rest] with value list [v], is found under [X-Goog-rest]
    with the value list [v]. *)
Theorem C1_header_translation order t req now :
  covers order (Header req) →
  let h' := translateHeaders order (Header req) in
  let after := Header (request (call order t req now).2) in
  (∀ k, strings.HasPrefix k _xAmzPrefix = true →
        h' !! k = None ∧ after !! k = None)
  ∧ (∀ k v, strings.HasPrefix k _xAmzPrefix = true →
            Header req !! k = Some v →
            ∃ rest, k = _xAmzPrefix +:+ rest
                    ∧ strings.Replace1 k _xAmzPrefix _xGoogPrefix
                      = _xGoogPrefix +:+ rest
                    ∧ h' !! (_xGoogPrefix +:+ rest) = Some v
                    ∧ after !! (_xGoogPrefix +:+ rest) = Some v).
Proof.
  intros Hc h' after.
  assert (∀ k, strings.HasPrefix k _xAmzPrefix = true → h' !! k = None) as Hgone.
  { intros k Hp. unfold h'. rewrite translate_amz by done.
    destruct (decide (k ∈ order)) as [|Hnin]; [done|].
    destruct (Header req !! k) eqn:E; [|done].
    destruct Hnin. by eapply covers_elem. }
  split.
  - intros k Hp. split; [by apply Hgone|].
    unfold after. rewrite call_header; [by apply Hgone|].
    intros ->. discriminate Hp.
  - intros k v Hp Hk.
    destruct (translated_name k Hp) as (rest & Ek & Er).
    exists rest. split; [done|]. split; [done|].
    assert (h' !! (_xGoogPrefix +:+ rest) = Some v) as Hnew.
    { unfold h'. rewrite <- Er.
      rewrite translate_other by by apply translated_not_amz.
      rewrite translated_goog, translated_source by done.
      rewrite Hk. rewrite decide_True; [done|].
      eapply covers_elem; eauto. }
    split; [done|].
    unfold after. rewrite call_header; [done|].
    intros E. pose proof (HasPrefix_app _xGoogPrefix rest) as Hg.
    rewrite E in Hg. discriminate Hg.
Qed.

(** C2: when the cache holds a token whose expiry is more than 10 seconds
    ahead, [RoundTrip] does not call [Token()] (no call in the log, the token
    source in the state it had), and the request it hands to the backend
    carries ["Bearer "] followed by the access string of the cached token. *)
Theorem C2_cached_token_reused order t req now tok :
  currentToken t = Some tok →
  now + expiryDelta < Expiry tok →
  let s' := (call order t req now).2 in
  tokenCalls (log s') = 0%nat
  ∧ tokenSrc (self s') = tokenSrc t
  ∧ currentToken (self s') = Some tok
  ∧ ∃ r, sent (log s') = [r]
         ∧ Header r !! "Authorization" = Some ["Bearer " +:+ AccessToken tok].
Proof.
  intros Hcur Hlt s'.
  assert (Valid (Some tok) now = true) as Hv.
  { apply Valid_margin. eauto. }
  unfold s'. rewrite (call_cached order t req now tok Hcur Hv). simpl.
  repeat split; [].
  eexists. split; [reflexivity|]. apply authorized_lookup.
Qed.

(** C3: when the cache is empty or holds a token that is not valid ([Valid]
    is false in both cases), [RoundTrip] calls [Token()] exactly once, and
    when that call returns a token, the token is stored into the cache, and
    stored before the request is handed to the backend. *)
Theorem C3_refresh_once order t req now :
  Valid (currentToken t) now = false →
  let s' := (call order t req now).2 in
  tokenCalls (log s') = 1%nat
  ∧ ∀ tok src,
      TokenSource_Token (tokenSrc t) = (inr tok, src) →
      currentToken (self s') = Some tok
      ∧ tokenSrc (self s') = src
      ∧ ∃ r, log s' = [EvLoad (currentToken t); EvToken (inr tok);
                        EvStore tok; EvSend r].
Proof.
  intros Hv s'. unfold s'.
  destruct (TokenSource_Token (tokenSrc t)) as [[err|tok] src] eqn:Htok.
  - rewrite (call_failed order t req now _ _ Hv Htok). simpl.
    split; [done|]. intros ? ? [=].
  - rewrite (call_refreshed order t req now _ _ Hv Htok). simpl.
    split; [done|]. intros ? ? [= <- <-]. eauto.
Qed.

(** C4: when [Token()] fails on a cache miss, [RoundTrip] returns no
    response and the error of [Token()] wrapped with the message
    ["failed to acquire token"]; nothing is handed to the backend, whose
    state is the one it had, and the cache is as it was. *)
Theorem C4_token_error order t req now err src :
  Valid (currentToken t) now = false →
  TokenSource_Token (tokenSrc t) = (inl err, src) →
  let out := call order t req now in
  out.1 = Done (None, Some (errors.Wrap err "failed to acquire token"))
  ∧ errors.Error (errors.Wrap err "failed to acquire token")
    = "failed to acquire token: " +:+ errors.Error err
  ∧ errors.Cause (errors.Wrap err "failed to acquire token") = errors.Cause err
  ∧ sent (log out.2) = []
  ∧ backend (self out.2) = backend t
  ∧ stored (log out.2) = []
  ∧ currentToken (self out.2) = currentToken t.
Proof.
  intros Hv Htok out. unfold out.
  rewrite (call_failed order t req now _ _ Hv Htok). simpl. done.
Qed.

(** C5: every request that [RoundTrip] hands to the backend carries, under
    ["Authorization"], the one-element list ["Bearer "] followed by the
    access string of the token chosen for the call, whatever the request
    held there before. *)
Theorem C5_authorization order t req now r :
  r ∈ sent (log (call order t req now).2) →
  ∃ tok, chosen t now tok
         ∧ Header r !! "Authorization" = Some ["Bearer " +:+ AccessToken tok].
Proof.
  unfold chosen. by_path order t req now; simpl.
  - intros Hr%list_elem_of_singleton. subst r.
    exists tok. split; [done|]. apply authorized_lookup.
  - intros Hr. by apply elem_of_nil in Hr.
  - intros Hr%list_elem_of_singleton. subst r.
    exists tok. split; [done|]. apply authorized_lookup.
Qed.

(** C6: [RoundTrip] reuses a cached token without consulting the token
    source only if the current time is more than the 10 second margin
    before the expiry of that token. *)
Theorem C6_validity_margin order t req now :
  tokenCalls (log (call order t req now).2) = 0%nat →
  ∃ tok, currentToken t = Some tok
         ∧ expiryDelta = 10 * Second
         ∧ now + expiryDelta < Expiry tok
         ∧ ∃ r, sent (log (call order t req now).2) = [r]
                ∧ Header r !! "Authorization"
                  = Some ["Bearer " +:+ AccessToken tok].
Proof.
  by_path order t req now; simpl; try discriminate.
  intros _. exists tok. split; [done|]. split; [done|].
  apply Valid_margin in Hv as (tok' & [= <-] & Hlt). split; [done|].
  eexists. split; [reflexivity|]. apply authorized_lookup.
Qed.

(** C10: a transport as [NewWrapHTTPTransport] returns it has an empty
    cache; on its first call the load yields the absent token, [Valid] is
    false on it, the call does not panic, and it goes on to call
    [Token()]. *)
Theorem C10_first_call scope defaultTokenSource defaultTransport secure
    order t req now :
  NewWrapHTTPTransport scope defaultTokenSource defaultTransport secure = inr t →
  currentToken t = None
  ∧ Valid (currentToken t) now = false
  ∧ (∃ r, (call order t req now).1 = Done r)
  ∧ tokenCalls (log (call order t req now).2) = 1%nat
  ∧ ∃ rest, log (call order t req now).2
            = EvLoad None :: EvToken (TokenSource_Token (tokenSrc t)).1 :: rest.
Proof.
  unfold NewWrapHTTPTransport. intros Hnew.
  destruct (defaultTokenSource scope) as [e|src]; [discriminate|].
  destruct (defaultTransport secure) as [e|b]; [discriminate|].
  injection Hnew as <-. split; [done|]. split; [done|].
  split; [apply call_total|].
  set (t := {| tokenSrc := src; backend := b; currentToken := None |}).
  assert (Valid (currentToken t) now = false) as Hv by done.
  destruct (TokenSource_Token (tokenSrc t)) as [[err|tok] src'] eqn:Htok.
  - rewrite (call_failed order t req now _ _ Hv Htok). simpl. eauto.
  - rewrite (call_refreshed order t req now _ _ Hv Htok). simpl. eauto.
Qed.

End Claims.

(** ** Headers without the S3 prefix *)

(** C7, as stated, fails: a request that carries both [X-Amz-Date] and
    [X-Goog-Date] leaves the loop with the value list of [X-Amz-Date] under
    [X-Goog-Date], a name that does not start with ["X-Amz-"]. *)
Lemma C7_counterexample :
  covers clashOrder (Header clashRequest)
  ∧ strings.HasPrefix "X-Goog-Date" _xAmzPrefix = false
  ∧ Header clashRequest !! "X-Goog-Date" = Some ["old"]
  ∧ translateHeaders clashOrder (Header clashRequest) !! "X-Goog-Date"
    = Some ["new"]
  ∧ translateHeaders clashOrder (Header clashRequest) !! "X-Goog-Date"
    ≠ Header clashRequest !! "X-Goog-Date".
Proof.
  split; [by apply (bool_decide_unpack _)|].
  split; [reflexivity|].
  assert (Header clashRequest !! "X-Goog-Date" = Some ["old"]) as Hold
    by (vm_compute; reflexivity).
  assert (translateHeaders clashOrder (Header clashRequest) !! "X-Goog-Date"
          = Some ["new"]) as Hnew by (vm_compute; reflexivity).
  split; [exact Hold|]. split; [exact Hnew|].
  rewrite Hold, Hnew. discriminate.
Qed.

(** C7, amended: a header of the request whose name does not start with
    ["X-Amz-"] keeps its name and value list through the loop, unless its
    name is [X-Goog-rest] and the request also carries [X-Amz-rest]; then it
    leaves the loop with the value list of [X-Amz-rest]. *)
Theorem C7_other_headers order (h : gmap string (list string)) k v :
  covers order h →
  h !! k = Some v →
  strings.HasPrefix k _xAmzPrefix = false →
  (strings.HasPrefix k _xGoogPrefix = false ∨ h !! amzName k = None →
   translateHeaders order h !! k = Some v)
  ∧ (∀ v', strings.HasPrefix k _xGoogPrefix = true →
           h !! amzName k = Some v' →
           translateHeaders order h !! k = Some v').
Proof.
  intros Hc Hk Hp. rewrite translate_other by done. split.
  - intros [Hg|Ha].
    + by rewrite Hg.
    + rewrite Ha. by destruct (strings.HasPrefix k _xGoogPrefix).
  - intros v' Hg Ha. rewrite Hg, Ha.
    rewrite decide_True; [done|]. eapply covers_elem; eauto.
Qed.

(** ** The client factory *)

Section FactoryClaims.

Context {S B Client : Type}.
Variable scope : string.
Variable defaultTokenSource : string → error + S.
Variable defaultTransport : bool → error + B.
Variable minio_New : string → Options S B → error + Client.

Abbreviation factory :=
  (NewMinioClient scope defaultTokenSource defaultTransport minio_New).
Abbreviation newTransport :=
  (NewWrapHTTPTransport scope defaultTokenSource defaultTransport).

Lemma Contains_self : strings.Contains GcsDefaultAddress GcsDefaultAddress = true.
Proof. reflexivity. Qed.

Lemma normalize_eq address (opts : option (Options S B)) :
  normalize address opts
  = (if String.eqb address "" || strings.Contains address GcsDefaultAddress
     then GcsDefaultAddress else address,
     if String.eqb address ""
     then with_Secure (default zeroOptions opts) true
     else default zeroOptions opts).
Proof.
  unfold normalize. destruct (String.eqb address "") eqn:E.
  - rewrite Contains_self. by destruct opts.
  - simpl. by destruct opts.
Qed.

Lemma factory_eq address opts :
  factory address opts
  = match Creds (normalize address opts).2 with
    | Some _ => minio_New (normalize address opts).1 (normalize address opts).2
    | None =>
        match newTransport (Secure (normalize address opts).2) with
        | inl err => inl (errors.Wrap err "failed to create default transport")
        | inr tr =>
            minio_New (normalize address opts).1
              {| Creds := Some (credentials.NewStaticV2 "" "" "");
                 Secure := Secure (normalize address opts).2;
                 Transport := Some (GcpTransport tr);
                 Region := Region (normalize address opts).2 |}
        end
    end.
Proof. unfold NewMinioClient. by destruct (normalize address opts). Qed.

(** C8: an empty address becomes ["storage.googleapis.com"] with [Secure]
    set; an address that contains ["storage.googleapis.com"] becomes exactly
    that string; any other address that is not empty stays as it is; and the
    address so obtained is the one [minio.New] is called with. *)
Theorem C8_address_normalization address opts :
  let a' := (normalize address opts).1 in
  let o' := (normalize address opts).2 in
  (address = "" → a' = GcsDefaultAddress ∧ Secure o' = true)
  ∧ (strings.Contains address GcsDefaultAddress = true → a' = GcsDefaultAddress)
  ∧ (address ≠ "" → strings.Contains address GcsDefaultAddress = false →
     a' = address)
  ∧ match Creds o' with
    | Some _ => factory address opts = minio_New a' o'
    | None =>
        match newTransport (Secure o') with
        | inl err =>
            factory address opts
            = inl (errors.Wrap err "failed to create default transport")
        | inr tr =>
            factory address opts
            = minio_New a' {| Creds := Some (credentials.NewStaticV2 "" "" "");
                              Secure := Secure o';
                              Transport := Some (GcpTransport tr);
                              Region := Region o' |}
        end
    end.
Proof.
  intros a' o'. unfold a', o'. rewrite factory_eq. rewrite normalize_eq.
  cbn [fst snd]. split; [|split; [|split]].
  - intros ->. split; reflexivity.
  - intros ->. by rewrite orb_true_r.
  - intros Hne Hc. rewrite Hc, orb_false_r.
    destruct (String.eqb address "") eqn:E; [|done].
    by apply String.eqb_eq in E.
  - destruct (Creds _); [done|]. by destruct (newTransport _).
Qed.


End FactoryClaims.

(** ** The claims at concrete calls

    Each statement below instantiates the theorem of the same name on the
    scripted token source and the recording backend. *)

Lemma C1_header_translation_witness :
  covers sampleOrder (Header sampleRequest)
  ∧ let h' := translateHeaders sampleOrder (Header sampleRequest) in
    let after :=
      Header (request (call sampleOrder (sampleTransport None [inr freshToken])
                         sampleRequest 0).2) in
    (∀ k, strings.HasPrefix k _xAmzPrefix = true →
          h' !! k = None ∧ after !! k = None)
    ∧ (∀ k v, strings.HasPrefix k _xAmzPrefix = true →
              Header sampleRequest !! k = Some v →
              ∃ rest, k = _xAmzPrefix +:+ rest
                      ∧ strings.Replace1 k _xAmzPrefix _xGoogPrefix
                        = _xGoogPrefix +:+ rest
                      ∧ h' !! (_xGoogPrefix +:+ rest) = Some v
                      ∧ after !! (_xGoogPrefix +:+ rest) = Some v).
Proof.
  assert (covers sampleOrder (Header sampleRequest)) as Hc
    by (apply (bool_decide_unpack _); vm_compute; exact I).
  split; [exact Hc|].
  exact (C1_header_translation sampleOrder (sampleTransport None [inr freshToken])
           sampleRequest 0 Hc).
Defined.

Lemma C2_cached_token_reused_witness :
  currentToken (sampleTransport (Some cachedToken) []) = Some cachedToken
  ∧ 0 + expiryDelta < Expiry cachedToken
  ∧ let s' := (call sampleOrder (sampleTransport (Some cachedToken) [])
                 sampleRequest 0).2 in
    tokenCalls (log s') = 0%nat
    ∧ tokenSrc (self s') = tokenSrc (sampleTransport (Some cachedToken) [])
    ∧ currentToken (self s') = Some cachedToken
    ∧ ∃ r, sent (log s') = [r]
           ∧ Header r !! "Authorization"
             = Some ["Bearer " +:+ AccessToken cachedToken].
Proof.
  split; [reflexivity|]. split; [reflexivity|].
  apply (C2_cached_token_reused sampleOrder (sampleTransport (Some cachedToken) [])
           sampleRequest 0 cachedToken); reflexivity.
Defined.

Lemma C3_refresh_once_witness :
  Valid (currentToken (sampleTransport (Some staleToken) [inr freshToken])) 0
  = false
  ∧ let t := sampleTransport (Some staleToken) [inr freshToken] in
    let s' := (call sampleOrder t sampleRequest 0).2 in
    tokenCalls (log s') = 1%nat
    ∧ ∀ tok src,
        TokenSource_Token (tokenSrc t) = (inr tok, src) →
        currentToken (self s') = Some tok
        ∧ tokenSrc (self s') = src
        ∧ ∃ r, log s' = [EvLoad (currentToken t); EvToken (inr tok);
                          EvStore tok; EvSend r].
Proof.
  split; [reflexivity|].
  apply (C3_refresh_once sampleOrder
           (sampleTransport (Some staleToken) [inr freshToken]) sampleRequest 0).
  reflexivity.
Defined.

Lemma C4_token_error_witness :
  Valid (currentToken (sampleTransport None [inl sampleError])) 0 = false
  ∧ TokenSource_Token (tokenSrc (sampleTransport None [inl sampleError]))
    = (inl sampleError, {| script := []; served := 1 |})
  ∧ let t := sampleTransport None [inl sampleError] in
    let out := call sampleOrder t sampleRequest 0 in
    out.1 = Done (None, Some (errors.Wrap sampleError "failed to acquire token"))
    ∧ errors.Error (errors.Wrap sampleError "failed to acquire token")
      = "failed to acquire token: " +:+ errors.Error sampleError
    ∧ errors.Cause (errors.Wrap sampleError "failed to acquire token")
      = errors.Cause sampleError
    ∧ sent (log out.2) = []
    ∧ backend (self out.2) = backend t
    ∧ stored (log out.2) = []
    ∧ currentToken (self out.2) = currentToken t.
Proof.
  split; [reflexivity|]. split; [reflexivity|].
  apply (C4_token_error sampleOrder (sampleTransport None [inl sampleError])
           sampleRequest 0 sampleError {| script := []; served := 1 |});
    reflexivity.
Defined.

Lemma C5_authorization_witness :
  let t := sampleTransport None [inr freshToken] in
  let r := with_Header sampleRequest
             (authorized (translateHeaders sampleOrder (Header sampleRequest))
                freshToken) in
  r ∈ sent (log (call sampleOrder t sampleRequest 0).2)
  ∧ ∃ tok, chosen t 0 tok
           ∧ Header r !! "Authorization" = Some ["Bearer " +:+ AccessToken tok].
Proof.
  intros t r.
  assert (r ∈ sent (log (call sampleOrder t sampleRequest 0).2)) as Hr
    by (apply list_elem_of_singleton; vm_compute; reflexivity).
  split; [exact Hr|].
  exact (C5_authorization sampleOrder t sampleRequest 0 r Hr).
Defined.

Lemma C6_validity_margin_witness :
  let t := sampleTransport (Some cachedToken) [inr freshToken] in
  tokenCalls (log (call sampleOrder t sampleRequest 0).2) = 0%nat
  ∧ ∃ tok, currentToken t = Some tok
           ∧ expiryDelta = 10 * Second
           ∧ 0 + expiryDelta < Expiry tok
           ∧ ∃ r, sent (log (call sampleOrder t sampleRequest 0).2) = [r]
                  ∧ Header r !! "Authorization"
                    = Some ["Bearer " +:+ AccessToken tok].
Proof.
  intros t. split; [reflexivity|].
  apply (C6_validity_margin sampleOrder t sampleRequest 0). reflexivity.
Defined.

Lemma C7_other_headers_witness :
  covers sampleOrder (Header sampleRequest)
  ∧ Header sampleRequest !! "Host" = Some ["storage.googleapis.com"]
  ∧ strings.HasPrefix "Host" _xAmzPrefix = false
  ∧ (strings.HasPrefix "Host" _xGoogPrefix = false
     ∨ Header sampleRequest !! amzName "Host" = None →
     translateHeaders sampleOrder (Header sampleRequest) !! "Host"
     = Some ["storage.googleapis.com"])
  ∧ (∀ v', strings.HasPrefix "Host" _xGoogPrefix = true →
           Header sampleRequest !! amzName "Host" = Some v' →
           translateHeaders sampleOrder (Header sampleRequest) !! "Host"
           = Some v').
Proof.
  assert (covers sampleOrder (Header sampleRequest)) as Hc
    by (apply (bool_decide_unpack _); vm_compute; exact I).
  assert (Header sampleRequest !! "Host" = Some ["storage.googleapis.com"]) as Hk
    by (vm_compute; reflexivity).
  split; [exact Hc|]. split; [exact Hk|]. split; [reflexivity|].
  exact (C7_other_headers sampleOrder (Header sampleRequest) "Host"
           ["storage.googleapis.com"] Hc Hk eq_refl).
Defined.

Lemma C10_first_call_witness :
  let t := sampleTransport None [inr freshToken] in
  NewWrapHTTPTransport sampleScope (λ _, inr (tokenSrc t)) (λ _, inr (backend t))
    true = inr t
  ∧ currentToken t = None
  ∧ Valid (currentToken t) 0 = false
  ∧ (∃ r, (call sampleOrder t sampleRequest 0).1 = Done r)
  ∧ tokenCalls (log (call sampleOrder t sampleRequest 0).2) = 1%nat
  ∧ ∃ rest, log (call sampleOrder t sampleRequest 0).2
            = EvLoad None :: EvToken (TokenSource_Token (tokenSrc t)).1 :: rest.
Proof.
  intros t. split; [reflexivity|].
  apply (C10_first_call sampleScope (λ _, inr (tokenSrc t))
           (λ _, inr (backend t)) true sampleOrder t sampleRequest 0).
  reflexivity.
Defined.

(** ** The factory on a recording [minio.New] *)

Example factory_port :
  NewMinioClient sampleScope (λ _, inl sampleError) (λ _, inl sampleError)
    recordNew "storage.googleapis.com:443"
    (Some {| Creds := Some (credentials.NewStaticV2 "id" "secret" "");
             Secure := false; Transport := None; Region := "eu" |})
  = inr (GcsDefaultAddress,
         {| Creds := Some (credentials.NewStaticV2 "id" "secret" "");
            Secure := false; Transport := None; Region := "eu" |}).
Proof. reflexivity. Qed.

Example factory_default :
  NewMinioClient sampleScope
    (λ _, inr {| script := []; served := 0 |})
    (λ _, inr {| received := [] |})
    recordNew "" None
  = inr (GcsDefaultAddress,
         {| Creds := Some (credentials.NewStaticV2 "" "" "");
            Secure := true;
            Transport := Some (GcpTransport (sampleTransport None []));
            Region := "" |}).
Proof. reflexivity. Qed.

Example factory_no_credentials :
  NewMinioClient sampleScope (λ _, inl sampleError)
    (λ _, inr {| received := [] |})
    recordNew "minio.example.org:9000" None
  = inl (errors.Wrap
           (errors.Wrap sampleError "failed to create default token source")
           "failed to create default transport").
Proof. reflexivity. Qed.

(** * Further properties of the code *)

(** ** The header loop *)

Lemma translateStep_fixed (h : gmap string (list string)) k :
  noAmz h → translateStep h k = h.
Proof.
  intros Hn. unfold translateStep.
  destruct (h !! k) as [v|] eqn:E; [|done].
  by rewrite (Hn k v E).
Qed.

Lemma translate_fixed order (h : gmap string (list string)) :
  noAmz h → translateHeaders order h = h.
Proof.
  intros Hn. unfold translateHeaders.
  induction order as [|k order IH]; [done|].
  cbn [foldl]. by rewrite translateStep_fixed.
Qed.

Lemma translate_noAmz order (h : gmap string (list string)) :
  covers order h → noAmz (translateHeaders order h).
Proof.
  intros Hc k v Hk. rewrite translate_lookup in Hk by done.
  by destruct (strings.HasPrefix k _xAmzPrefix).
Qed.

(** X1: running the loop of lines 50-55 again on the headers it produced
    changes nothing, whatever the order of the second run. *)
Theorem X1_translate_idempotent order1 order2 (h : gmap string (list string)) :
  covers order1 h →
  translateHeaders order2 (translateHeaders order1 h) = translateHeaders order1 h.
Proof. intros Hc. by apply translate_fixed, translate_noAmz. Qed.

(** X2: the headers the loop produces do not depend on the order in which
    the map iteration yields the keys. *)
Theorem X2_translate_order_free order1 order2 (h : gmap string (list string)) :
  covers order1 h → covers order2 h →
  translateHeaders order1 h = translateHeaders order2 h.
Proof.
  intros H1 H2. apply map_eq. intros k. by rewrite !translate_lookup.
Qed.

(** X3: the loop invents nothing: a header found after the loop, whatever
    the iteration order, holds the value list the request had under the same
    name or under the S3 name it is the translation of. *)
Theorem X3_translate_provenance order (h : gmap string (list string)) k v :
  translateHeaders order h !! k = Some v →
  h !! k = Some v
  ∨ (strings.HasPrefix k _xGoogPrefix = true ∧ h !! amzName k = Some v).
Proof.
  intros Hk. destruct (strings.HasPrefix k _xAmzPrefix) eqn:Hp.
  - rewrite translate_amz in Hk by done.
    destruct (decide (k ∈ order)); [done | by left].
  - rewrite translate_other in Hk by done.
    destruct (strings.HasPrefix k _xGoogPrefix) eqn:Hg; [|by left].
    destruct (h !! amzName k) as [v'|] eqn:Ea; [|by left].
    destruct (decide (amzName k ∈ order)); [|by left].
    right. split; [done|]. congruence.
Qed.

Lemma translateStep_size (h : gmap string (list string)) k :
  (size (translateStep h k) ≤ size h)%nat.
Proof.
  unfold translateStep. destruct (h !! k) as [v|] eqn:E; [|done].
  destruct (strings.HasPrefix k _xAmzPrefix) eqn:Hp; [|done].
  assert (strings.Replace1 k _xAmzPrefix _xGoogPrefix ≠ k) as Hne.
  { intros Heq. pose proof (translated_not_amz k Hp) as Hn. congruence. }
  rewrite map_size_delete, lookup_insert_ne, E by done.
  rewrite map_size_insert.
  destruct (h !! strings.Replace1 k _xAmzPrefix _xGoogPrefix); simpl; lia.
Qed.

(** X4: the loop never adds to the number of headers of the request. *)
Theorem X4_translate_size order (h : gmap string (list string)) :
  (size (translateHeaders order h) ≤ size h)%nat.
Proof.
  unfold translateHeaders. revert h.
  induction order as [|k order IH]; intros h; cbn [foldl]; [done|].
  etrans; [apply IH | apply translateStep_size].
Qed.

(** ** One call of [RoundTrip] *)

Section CallProperties.

Context {S B : Type} `{TokenSource S} `{transport B}.
Implicit Types (t : WrapHTTPTransport S B) (req : Request) (tok : Token).

Ltac on_path order t req now :=
  let Hv := fresh "Hv" in
  let Hcur := fresh "Hcur" in
  let Htok := fresh "Htok" in
  destruct (Valid (currentToken t) now) eqn:Hv;
  [ destruct (currentToken t) as [?tok|] eqn:Hcur;
    [ rewrite (call_cached order t req now _ Hcur Hv)
    | discriminate Hv ]
  | destruct (TokenSource_Token (tokenSrc t)) as [[?err|?tok] ?src] eqn:Htok;
    [ rewrite (call_failed order t req now _ _ Hv Htok)
    | rewrite (call_refreshed order t req now _ _ Hv Htok) ] ].

(** X5: [RoundTrip] does not retry: in one call [Token()] is invoked at
    most once, the backend at most once, and a token is stored at most as
    often as [Token()] was invoked. *)
Theorem X5_no_retry order t req now :
  let l := log (call order t req now).2 in
  (tokenCalls l ≤ 1)%nat
  ∧ (length (sent l) ≤ 1)%nat
  ∧ (length (stored l) ≤ tokenCalls l)%nat.
Proof.
  intros l. unfold l.
  on_path order t req now; unfold tokenCalls; simpl; lia.
Qed.

(** X6: what the backend returns for the request handed to it is what
    [RoundTrip] returns, response and error as they are, and the backend is
    left in the state its own call produced. *)
Theorem X6_delegate_verbatim order t req now r :
  sent (log (call order t req now).2) = [r] →
  (call order t req now).1 = Done (transport_RoundTrip (backend t) r).1
  ∧ backend (self (call order t req now).2)
    = (transport_RoundTrip (backend t) r).2.
Proof.
  on_path order t req now; simpl; intros Hs; try discriminate;
    by injection Hs as <-.
Qed.

(** X7: [RoundTrip] leaves the method, the target and the body of the
    request as they were, and so every header other than ["Authorization"]
    whose name has no S3 prefix and is not the translation of an S3 header
    of the request. *)
Theorem X7_request_frame order t req now :
  let after := request (call order t req now).2 in
  Method after = Method req
  ∧ URL after = URL req
  ∧ Body after = Body req
  ∧ ∀ k, k ≠ "Authorization" →
         strings.HasPrefix k _xAmzPrefix = false →
         strings.HasPrefix k _xGoogPrefix = false
         ∨ Header req !! amzName k = None →
         Header after !! k = Header req !! k.
Proof.
  intros after.
  assert (Method after = Method req ∧ URL after = URL req
          ∧ Body after = Body req) as (-> & -> & ->).
  { unfold after. on_path order t req now; done. }
  repeat split; [].
  intros k Hk Hp Hsrc. unfold after. rewrite call_header by done.
  rewrite translate_other by done.
  destruct Hsrc as [Hg|Ha].
  - by rewrite Hg.
  - rewrite Ha. by destruct (strings.HasPrefix k _xGoogPrefix).
Qed.


(** X9: a call that fails on [Token()] has still rewritten the request of
    the caller: its headers are the ones the loop produced, with the
    authorization the request came with, and the token source has moved to
    the state its failing call left. *)
Theorem X9_failed_call_mutates order t req now err src :
  Valid (currentToken t) now = false →
  TokenSource_Token (tokenSrc t) = (inl err, src) →
  let s' := (call order t req now).2 in
  Header (request s') = translateHeaders order (Header req)
  ∧ Header (request s') !! "Authorization" = Header req !! "Authorization"
  ∧ tokenSrc (self s') = src.
Proof.
  intros Hv Htok s'. unfold s'.
  rewrite (call_failed order t req now _ _ Hv Htok). simpl.
  split; [done|]. split; [|done].
  by rewrite translate_other.
Qed.

(** X10: for a request without S3 headers, the request handed to the
    backend is the request of the caller with ["Authorization"] set to the
    bearer value of the chosen token, and nothing else changed. *)
Theorem X10_plain_request order t req now r :
  noAmz (Header req) →
  r ∈ sent (log (call order t req now).2) →
  ∃ tok, chosen t now tok
         ∧ r = with_Header req
                 (<["Authorization" := ["Bearer " +:+ AccessToken tok]]>
                    (Header req)).
Proof.
  intros Hn. unfold chosen. on_path order t req now; simpl.
  - intros Hr%list_elem_of_singleton. subst r.
    exists tok. split; [done|]. unfold authorized. by rewrite translate_fixed.
  - intros Hr. by apply elem_of_nil in Hr.
  - intros Hr%list_elem_of_singleton. subst r.
    exists tok. split; [done|]. unfold authorized. by rewrite translate_fixed.
Qed.

(** ** Calls in sequence *)

Lemma tokenCalls_cons e (l : list Event) :
  tokenCalls (e :: l) = ((if isToken e then 1 else 0) + tokenCalls l)%nat.
Proof. unfold tokenCalls. by destruct e. Qed.

Lemma sent_cons e (l : list Event) :
  sent (e :: l) = match e with
                  | EvSend r => r :: sent l
                  | _ => sent l
                  end.
Proof. by destruct e. Qed.

Lemma serve_cached t calls tok :
  currentToken t = Some tok →
  allBefore (Expiry tok) calls = true →
  tokenCalls (serve t calls).2 = 0%nat
  ∧ currentToken (serve t calls).1 = Some tok
  ∧ tokenSrc (serve t calls).1 = tokenSrc t
  ∧ length (sent (serve t calls).2) = length calls
  ∧ Forall (λ r, Header r !! "Authorization"
                 = Some ["Bearer " +:+ AccessToken tok])
      (sent (serve t calls).2).
Proof.
  revert t. induction calls as [|[[order req] now] rest IH]; intros t Hcur Hall.
  - cbn. repeat split; first [done | constructor].
  - cbn in Hall. apply andb_true_iff in Hall as [Hnow Hrest].
    assert (Valid (Some tok) now = true) as Hv by exact Hnow.
    cbn [serve]. rewrite (call_cached order t req now tok Hcur Hv).
    cbn [snd self log].
    set (req' := with_Header req _).
    set (t1 := {| tokenSrc := tokenSrc t;
                  backend := (transport_RoundTrip (backend t) req').2;
                  currentToken := Some tok |}).
    destruct (IH t1 eq_refl Hrest) as (Hc & Hk & Hsrc & Hlen & Hall').
    destruct (serve t1 rest) as [t' l]. cbn [fst snd app] in *.
    rewrite !tokenCalls_cons, !sent_cons. cbn [isToken length].
    repeat split; try done.
    + by rewrite Hlen.
    + constructor; [apply authorized_lookup | done].
Qed.

(** X11: while the cached token stays more than the margin away from its
    expiry, a sequence of calls never invokes [Token()]: the cache and the
    token source stay as they were, every call reaches the backend, and
    every request carries the bearer value of the cached token. *)
Theorem X11_serve_cached t calls tok :
  currentToken t = Some tok →
  allBefore (Expiry tok) calls = true →
  tokenCalls (serve t calls).2 = 0%nat
  ∧ currentToken (serve t calls).1 = Some tok
  ∧ tokenSrc (serve t calls).1 = tokenSrc t
  ∧ length (sent (serve t calls).2) = length calls
  ∧ Forall (λ r, Header r !! "Authorization"
                 = Some ["Bearer " +:+ AccessToken tok])
      (sent (serve t calls).2).
Proof. apply serve_cached. Qed.

(** X12: a call that finds no valid token and acquires one pays for the
    calls after it: over the whole sequence [Token()] is invoked once, as
    long as the later calls happen more than the margin before the expiry
    of the acquired token, and every request carries its bearer value. *)
Theorem X12_refresh_then_reuse t order req now rest tok src :
  Valid (currentToken t) now = false →
  TokenSource_Token (tokenSrc t) = (inr tok, src) →
  allBefore (Expiry tok) rest = true →
  let out := serve t ((order, req, now) :: rest) in
  tokenCalls out.2 = 1%nat
  ∧ currentToken out.1 = Some tok
  ∧ tokenSrc out.1 = src
  ∧ length (sent out.2) = Datatypes.S (length rest)
  ∧ Forall (λ r, Header r !! "Authorization"
                 = Some ["Bearer " +:+ AccessToken tok])
      (sent out.2).
Proof.
  intros Hv Htok Hrest out. unfold out. cbn [serve].
  rewrite (call_refreshed order t req now _ _ Hv Htok).
  cbn [snd self log].
  set (req' := with_Header req _).
  set (t1 := {| tokenSrc := src;
                backend := (transport_RoundTrip (backend t) req').2;
                currentToken := Some tok |}).
  destruct (serve_cached t1 rest tok eq_refl Hrest)
    as (Hc & Hk & Hsrc & Hlen & Hall').
  destruct (serve t1 rest) as [t' l]. cbn [fst snd app] in *.
  rewrite !tokenCalls_cons, !sent_cons. cbn [isToken length].
  repeat split; try done.
  - by rewrite Hc.
  - by rewrite Hlen.
  - constructor; [apply authorized_lookup | done].
Qed.

End CallProperties.

(** ** The client factory, further *)

Lemma Contains_unfold s sub :
  strings.Contains s sub
  = if strings.HasPrefix s sub then true
    else match s with
         | EmptyString => false
         | String _ s' => strings.Contains s' sub
         end.
Proof. by destruct s. Qed.

Lemma append_assoc (a b c : string) : (a +:+ b) +:+ c = a +:+ b +:+ c.
Proof.
  induction a as [|x a IH]; [reflexivity|].
  rewrite !append_cons. by rewrite IH.
Qed.

(** [strings.Contains] finds a substring wherever it starts. *)
Lemma Contains_app pre sub post :
  strings.Contains (pre +:+ sub +:+ post) sub = true.
Proof.
  induction pre as [|c pre IH].
  - change ("" +:+ sub +:+ post) with (sub +:+ post).
    rewrite Contains_unfold. by rewrite HasPrefix_app.
  - rewrite append_cons, Contains_unfold.
    destruct (strings.HasPrefix _ sub); [done | exact IH].
Qed.

(** [strings.Contains] only finds what is there. *)
Lemma Contains_inv s sub :
  strings.Contains s sub = true → ∃ pre post, s = pre +:+ sub +:+ post.
Proof.
  induction s as [|c s IH]; rewrite Contains_unfold.
  - destruct (strings.HasPrefix "" sub) eqn:Hp; [|done].
    intros _. exists "", (strings.skip (String.length sub) "").
    by apply HasPrefix_split.
  - destruct (strings.HasPrefix (String c s) sub) eqn:Hp.
    + intros _. exists "", (strings.skip (String.length sub) (String c s)).
      by apply HasPrefix_split.
    + intros (pre & post & ->)%IH. exists (String c pre), post.
      by rewrite append_cons.
Qed.

Section FactoryProperties.

Context {S B Client : Type}.
Variable scope : string.
Variable defaultTokenSource : string → error + S.
Variable defaultTransport : bool → error + B.
Variable minio_New : string → Options S B → error + Client.

Abbreviation factory' :=
  (NewMinioClient scope defaultTokenSource defaultTransport minio_New).

(** X13: the address [minio.New] is called with is
    ["storage.googleapis.com"] exactly when the given address is empty or
    has that name somewhere inside it, with anything before and after; any
    other address is passed on as it is. *)
Theorem X13_address_characterised address (opts : option (Options S B)) :
  ((normalize address opts).1 = GcsDefaultAddress
   ↔ address = ""
     ∨ ∃ pre post, address = pre +:+ GcsDefaultAddress +:+ post)
  ∧ ((normalize address opts).1 = GcsDefaultAddress
     ∨ (normalize address opts).1 = address).
Proof.
  rewrite normalize_eq. cbn [fst].
  destruct (String.eqb address "") eqn:E.
  - apply String.eqb_eq in E. split; [|by left]. split; [by left | done].
  - destruct (strings.Contains address GcsDefaultAddress) eqn:Hc; cbn [orb].
    + split; [|by left]. split; [|done].
      intros _. right. by apply Contains_inv.
    + split; [|by right]. split.
      * intros ->. by rewrite Contains_self in Hc.
      * intros [->|(pre & post & ->)]; [done|].
        by rewrite Contains_app in Hc.
Qed.

(** X14: [minio.New] is never called with an empty address, and
    normalising an address that is already normalised changes nothing. *)
Theorem X14_address_stable address (opts opts' : option (Options S B)) :
  (normalize address opts).1 ≠ ""
  ∧ (normalize (normalize address opts).1 opts').1 = (normalize address opts).1.
Proof.
  rewrite !normalize_eq. cbn [fst].
  destruct (String.eqb address "") eqn:E; cbn [orb].
  - split; [done | reflexivity].
  - destruct (strings.Contains address GcsDefaultAddress) eqn:Hc.
    + split; [done | reflexivity].
    + rewrite E, Hc. split; [|done].
      intros ->. discriminate E.
Qed.

(** X15: without credentials in the options, a failure to build the
    transport ends the factory before [minio.New]: the error of the token
    source comes back wrapped twice, the error of the default transport
    comes back under the same message twice, and the cause is the error of
    the library in both cases. *)
Theorem X15_construction_failure address (opts : option (Options S B)) :
  opts ≫= Creds = None →
  let o' := (normalize address opts).2 in
  (∀ e, defaultTokenSource scope = inl e →
        ∃ e', factory' address opts = inl e'
              ∧ errors.Error e'
                = "failed to create default transport: "
                  +:+ "failed to create default token source: "
                  +:+ errors.Error e
              ∧ errors.Cause e' = errors.Cause e)
  ∧ (∀ src e, defaultTokenSource scope = inr src →
              defaultTransport (Secure o') = inl e →
              ∃ e', factory' address opts = inl e'
                    ∧ errors.Error e'
                      = "failed to create default transport: "
                        +:+ "failed to create default transport: "
                        +:+ errors.Error e
                    ∧ errors.Cause e' = errors.Cause e).
Proof.
  intros Hnone o'.
  assert (Creds o' = None) as Hc.
  { unfold o'. rewrite normalize_eq. cbn [snd].
    destruct opts as [o|]; destruct (String.eqb address ""); done. }
  split.
  - intros e He. rewrite factory_eq. fold o'. rewrite Hc.
    unfold NewWrapHTTPTransport. rewrite He.
    eexists. split; [reflexivity|]. split; reflexivity.
  - intros src e Hs He. rewrite factory_eq. fold o'. rewrite Hc.
    unfold NewWrapHTTPTransport. rewrite Hs, He.
    eexists. split; [reflexivity|]. split; reflexivity.
Qed.

End FactoryProperties.

(** X16: with credentials in the options the factory does not look for
    ambient credentials and builds no transport: its result is the same
    whatever [google.DefaultTokenSource] and [minio.DefaultTransport] would
    return. *)
Theorem X16_static_credentials_only {S B Client : Type}
    scope1 scope2 (source1 source2 : string → error + S)
    (transport1 transport2 : bool → error + B)
    (minio_New : string → Options S B → error + Client)
    address (o : Options S B) c :
  Creds o = Some c →
  NewMinioClient scope1 source1 transport1 minio_New address (Some o)
  = NewMinioClient scope2 source2 transport2 minio_New address (Some o).
Proof.
  intros Hc. rewrite !factory_eq, !normalize_eq. cbn [fst snd default].
  unfold id.
  by destruct (String.eqb address ""); cbn [with_Secure Creds]; rewrite Hc.
Qed.

(** ** The further properties at concrete calls *)

Lemma X1_translate_idempotent_witness :
  covers sampleOrder (Header sampleRequest)
  ∧ translateHeaders sampleOrder2
      (translateHeaders sampleOrder (Header sampleRequest))
    = translateHeaders sampleOrder (Header sampleRequest).
Proof.
  assert (covers sampleOrder (Header sampleRequest)) as Hc
    by (apply (bool_decide_unpack _); vm_compute; exact I).
  split; [exact Hc|].
  exact (X1_translate_idempotent sampleOrder sampleOrder2
           (Header sampleRequest) Hc).
Defined.

Lemma X2_translate_order_free_witness :
  covers sampleOrder (Header sampleRequest)
  ∧ covers sampleOrder2 (Header sampleRequest)
  ∧ translateHeaders sampleOrder (Header sampleRequest)
    = translateHeaders sampleOrder2 (Header sampleRequest).
Proof.
  assert (covers sampleOrder (Header sampleRequest)) as H1
    by (apply (bool_decide_unpack _); vm_compute; exact I).
  assert (covers sampleOrder2 (Header sampleRequest)) as H2
    by (apply (bool_decide_unpack _); vm_compute; exact I).
  split; [exact H1|]. split; [exact H2|].
  exact (X2_translate_order_free sampleOrder sampleOrder2
           (Header sampleRequest) H1 H2).
Defined.

Lemma X3_translate_provenance_witness :
  translateHeaders sampleOrder (Header sampleRequest) !! "X-Goog-Date"
  = Some ["20240101T000000Z"]
  ∧ (Header sampleRequest !! "X-Goog-Date" = Some ["20240101T000000Z"]
     ∨ (strings.HasPrefix "X-Goog-Date" _xGoogPrefix = true
        ∧ Header sampleRequest !! amzName "X-Goog-Date"
          = Some ["20240101T000000Z"])).
Proof.
  assert (translateHeaders sampleOrder (Header sampleRequest) !! "X-Goog-Date"
          = Some ["20240101T000000Z"]) as Hk by (vm_compute; reflexivity).
  split; [exact Hk|].
  exact (X3_translate_provenance sampleOrder (Header sampleRequest)
           "X-Goog-Date" ["20240101T000000Z"] Hk).
Defined.

Lemma X6_delegate_verbatim_witness :
  let t := sampleTransport None [inr freshToken] in
  let r := with_Header sampleRequest
             (authorized (translateHeaders sampleOrder (Header sampleRequest))
                freshToken) in
  sent (log (call sampleOrder t sampleRequest 0).2) = [r]
  ∧ (call sampleOrder t sampleRequest 0).1
    = Done (transport_RoundTrip (backend t) r).1
  ∧ backend (self (call sampleOrder t sampleRequest 0).2)
    = (transport_RoundTrip (backend t) r).2.
Proof.
  intros t r.
  assert (sent (log (call sampleOrder t sampleRequest 0).2) = [r]) as Hs
    by (vm_compute; reflexivity).
  split; [exact Hs|].
  exact (X6_delegate_verbatim sampleOrder t sampleRequest 0 r Hs).
Defined.


Lemma X9_failed_call_mutates_witness :
  let t := sampleTransport None [inl sampleError] in
  Valid (currentToken t) 0 = false
  ∧ TokenSource_Token (tokenSrc t)
    = (inl sampleError, {| script := []; served := 1 |})
  ∧ let s' := (call sampleOrder t sampleRequest 0).2 in
    Header (request s') = translateHeaders sampleOrder (Header sampleRequest)
    ∧ Header (request s') !! "Authorization"
      = Header sampleRequest !! "Authorization"
    ∧ tokenSrc (self s') = {| script := []; served := 1 |}.
Proof.
  intros t. split; [reflexivity|]. split; [reflexivity|].
  apply (X9_failed_call_mutates sampleOrder t sampleRequest 0 sampleError
           {| script := []; served := 1 |}); reflexivity.
Defined.

Lemma X10_plain_request_witness :
  let t := sampleTransport (Some cachedToken) [] in
  let r := with_Header plainRequest
             (<["Authorization" := ["Bearer " +:+ AccessToken cachedToken]]>
                (Header plainRequest)) in
  noAmz (Header plainRequest)
  ∧ r ∈ sent (log (call plainOrder t plainRequest 0).2)
  ∧ ∃ tok, chosen t 0 tok
           ∧ r = with_Header plainRequest
                   (<["Authorization" := ["Bearer " +:+ AccessToken tok]]>
                      (Header plainRequest)).
Proof.
  intros t r.
  assert (noAmz (Header plainRequest)) as Hn
    by (apply (bool_decide_unpack _); vm_compute; exact I).
  assert (r ∈ sent (log (call plainOrder t plainRequest 0).2)) as Hr
    by (apply list_elem_of_singleton; vm_compute; reflexivity).
  split; [exact Hn|]. split; [exact Hr|].
  exact (X10_plain_request plainOrder t plainRequest 0 r Hn Hr).
Defined.

Lemma X11_serve_cached_witness :
  let t := sampleTransport (Some cachedToken) [] in
  let calls := (sampleOrder, sampleRequest, 0) :: laterCalls in
  currentToken t = Some cachedToken
  ∧ allBefore (Expiry cachedToken) calls = true
  ∧ tokenCalls (serve t calls).2 = 0%nat
  ∧ currentToken (serve t calls).1 = Some cachedToken
  ∧ tokenSrc (serve t calls).1 = tokenSrc t
  ∧ length (sent (serve t calls).2) = length calls
  ∧ Forall (λ r, Header r !! "Authorization"
                 = Some ["Bearer " +:+ AccessToken cachedToken])
      (sent (serve t calls).2).
Proof.
  intros t calls. split; [reflexivity|]. split; [reflexivity|].
  apply (X11_serve_cached t calls cachedToken); reflexivity.
Defined.

Lemma X12_refresh_then_reuse_witness :
  let t := sampleTransport (Some staleToken) [inr freshToken] in
  Valid (currentToken t) 0 = false
  ∧ TokenSource_Token (tokenSrc t)
    = (inr freshToken, {| script := []; served := 1 |})
  ∧ allBefore (Expiry freshToken) laterCalls = true
  ∧ let out := serve t ((sampleOrder, sampleRequest, 0) :: laterCalls) in
    tokenCalls out.2 = 1%nat
    ∧ currentToken out.1 = Some freshToken
    ∧ tokenSrc out.1 = {| script := []; served := 1 |}
    ∧ length (sent out.2) = Datatypes.S (length laterCalls)
    ∧ Forall (λ r, Header r !! "Authorization"
                   = Some ["Bearer " +:+ AccessToken freshToken])
        (sent out.2).
Proof.
  intros t. split; [reflexivity|]. split; [reflexivity|]. split; [reflexivity|].
  apply (X12_refresh_then_reuse t sampleOrder sampleRequest 0 laterCalls
           freshToken {| script := []; served := 1 |}); reflexivity.
Defined.

Lemma X15_construction_failure_witness :
  (None : option (Options scripted recorder)) ≫= Creds = None
  ∧ let o' := (normalize "" (None : option (Options scripted recorder))).2 in
    (∀ e, (λ _ : string, inl sampleError : error + scripted) sampleScope = inl e →
          ∃ e', NewMinioClient sampleScope (λ _, inl sampleError)
                  (λ _, inr {| received := [] |}) recordNew "" None = inl e'
                ∧ errors.Error e'
                  = "failed to create default transport: "
                    +:+ "failed to create default token source: "
                    +:+ errors.Error e
                ∧ errors.Cause e' = errors.Cause e)
    ∧ (∀ src e,
         (λ _ : string, inl sampleError : error + scripted) sampleScope = inr src →
         (λ _ : bool, inr {| received := [] |} : error + recorder) (Secure o')
         = inl e →
         ∃ e', NewMinioClient sampleScope (λ _, inl sampleError)
                 (λ _, inr {| received := [] |}) recordNew "" None = inl e'
               ∧ errors.Error e'
                 = "failed to create default transport: "
                   +:+ "failed to create default transport: "
                   +:+ errors.Error e
               ∧ errors.Cause e' = errors.Cause e).
Proof.
  split; [reflexivity|].
  exact (X15_construction_failure sampleScope (λ _, inl sampleError)
           (λ _, inr {| received := [] |}) recordNew "" None eq_refl).
Defined.

Lemma X16_static_credentials_only_witness :
  Creds keyedOptions = Some (credentials.NewStaticV2 "id" "secret" "")
  ∧ NewMinioClient sampleScope (λ _, inl sampleError) (λ _, inl sampleError)
      recordNew "minio.example.org:9000" (Some keyedOptions)
    = NewMinioClient "" (λ _, inr {| script := []; served := 0 |})
        (λ _, inr {| received := [] |})
        recordNew "minio.example.org:9000" (Some keyedOptions).
Proof.
  split; [reflexivity|].
  exact (X16_static_credentials_only sampleScope "" (λ _, inl sampleError)
           (λ _, inr {| script := []; served := 0 |}) (λ _, inl sampleError)
           (λ _, inr {| received := [] |}) recordNew "minio.example.org:9000"
           keyedOptions (credentials.NewStaticV2 "id" "secret" "") eq_refl).
Defined.

Example factory_transport_failure :
  sum_map errors.Error id
    (NewMinioClient sampleScope
       (λ _, inr {| script := []; served := 0 |})
       (λ _, inl (errorString "bad TLS setup"))
       recordNew "minio.example.org:9000" None)
  = inl ("failed to create default transport: "
         +:+ "failed to create default transport: bad TLS setup").
Proof. reflexivity. Qed.
